(** * visiting-card-ocr: the folder-walking OCR pipeline

    A shallow embedding of [src/visiting-card-ocr.py] (class
    [ImageTextExtractor]) and the properties of its traversal,
    de-duplication, export and cleanup steps.

    Modelling choices, all visible in the definitions below:
    - Python [str] values are [string]s of bytes.  The only case mapping the
      script performs is [file_name.lower()] followed by a comparison with
      ASCII suffixes, for which the ASCII mapping is exact.
    - Paths are POSIX paths; [os_path_join] and [os_path_dirname] follow
      [posixpath.join] and [posixpath.dirname].
    - The input tree is a rose tree of [node]s; a directory holds its entries
      in the order in which [os.listdir] returns them.
    - A [pandas.DataFrame] with the two columns [image_url], [raw_text] is the
      list of its rows; the row index produced by [ignore_index=True] and by
      [reset_index(drop=True)] is the position in the list.
    - Effects are explicit: the walker returns what it printed next to its
      result, the driver threads a [World] through a state-and-exception
      monad, and every effect is recorded in a chronological trace. *)

From Stdlib Require Import Ascii String.
From stdpp Require Import list strings gmap.

Set Warnings "-register-all".

(** ** Strings and paths *)

Definition ascii_lower (c : ascii) : ascii :=
  let n := nat_of_ascii c in
  if (65 <=? n) && (n <=? 90) then ascii_of_nat (n + 32) else c.

(** [str.lower] *)
Fixpoint lower (s : string) : string :=
  match s with
  | EmptyString => EmptyString
  | String c s' => String (ascii_lower c) (lower s')
  end.

(** [s.endswith(suffix)]: some tail of [s] is [suffix]. *)
Fixpoint endswith (s suffix : string) : bool :=
  if bool_decide (s = suffix) then true
  else match s with
       | EmptyString => false
       | String _ s' => endswith s' suffix
       end.

(** [s.startswith(p)] *)
Fixpoint startswith (s p : string) : bool :=
  match p, s with
  | EmptyString, _ => true
  | String c p', String d s' => bool_decide (c = d) && startswith s' p'
  | String _ _, EmptyString => false
  end.

(** [s.endswith((suffix1, suffix2, ...))] *)
Definition endswith_any (s : string) (suffixes : list string) : bool :=
  existsb (endswith s) suffixes.

Definition sep : string := "/".

(** [posixpath.join(a, b)] *)
Definition os_path_join (a b : string) : string :=
  if startswith b sep then b
  else if bool_decide (a = "") || endswith a sep then a +:+ b
  else a +:+ sep +:+ b.

(** [p[:p.rfind('/') + 1]]: the longest prefix of [p] that ends with a
    separator, empty when [p] has none. *)
Fixpoint head_of_path (p : string) : string :=
  match p with
  | EmptyString => EmptyString
  | String c p' =>
      let h := head_of_path p' in
      if bool_decide (h = "") then
        (if bool_decide (c = "/"%char) then String c EmptyString else EmptyString)
      else String c h
  end.

(** [s == '/' * len(s)] *)
Fixpoint only_seps (s : string) : bool :=
  match s with
  | EmptyString => true
  | String c s' => bool_decide (c = "/"%char) && only_seps s'
  end.

(** [s.rstrip('/')] *)
Fixpoint rstrip_sep (s : string) : string :=
  match s with
  | EmptyString => EmptyString
  | String c s' =>
      let r := rstrip_sep s' in
      if bool_decide (r = "") && bool_decide (c = "/"%char) then EmptyString
      else String c r
  end.

(** [posixpath.dirname(p)] *)
Definition os_path_dirname (p : string) : string :=
  let head := head_of_path p in
  if negb (bool_decide (head = "")) && negb (only_seps head)
  then rstrip_sep head else head.

(** ** The input tree *)

(** A file carries its bytes and two permissions: whether it can be opened for
    reading and whether it can be unlinked.  A directory carries whether it can
    be listed, and its entries in listing order. *)
Inductive node : Type :=
| File (readable removable : bool) (content : string)
| Dir (listable : bool) (entries : list (string * node)).

(** The first entry called [name]: what a path ending in [name] denotes. *)
Fixpoint lookup_entry (name : string) (es : list (string * node)) : option node :=
  match es with
  | [] => None
  | (k, n) :: rest => if bool_decide (k = name) then Some n else lookup_entry name rest
  end.

Fixpoint replace_entry (name : string) (n' : node) (es : list (string * node))
  : list (string * node) :=
  match es with
  | [] => []
  | (k, n) :: rest =>
      if bool_decide (k = name) then (k, n') :: rest
      else (k, n) :: replace_entry name n' rest
  end.

Fixpoint remove_entry (name : string) (es : list (string * node))
  : list (string * node) :=
  match es with
  | [] => []
  | (k, n) :: rest =>
      if bool_decide (k = name) then remove_entry name rest
      else (k, n) :: remove_entry name rest
  end.

(** A name that a directory listing can return: not empty, no separator. *)
Fixpoint no_sep (s : string) : bool :=
  match s with
  | EmptyString => true
  | String c s' => negb (bool_decide (c = "/"%char)) && no_sep s'
  end.

Definition valid_name (s : string) : bool :=
  negb (bool_decide (s = "")) && no_sep s.

(** A directory listing: valid names, no name twice. *)
Definition listing_ok (es : list (string * node)) : bool :=
  forallb valid_name es.*1 && bool_decide (NoDup es.*1).

(** The two levels that [process_folder] walks are proper listings. *)
Definition folder_ok (subs : list (string * node)) : bool :=
  listing_ok subs &&
  forallb (λ e, match e.2 with
                | Dir _ files => listing_ok files
                | File _ _ _ => true
                end) subs.

(** ** Exceptions, the OCR client, tables *)

Inductive exn : Type :=
| FileNotFoundError (filename : string)
| PermissionError (filename : string)
| IsADirectoryError (filename : string)
| NotADirectoryError (filename : string)
| ServiceError (message : string).

Record EntityAnnotation : Type := {
  locale : string;
  description : string
}.

(** The part of the service response that the script reads.  A repeated field
    that the service left out reads as the empty list. *)
Record AnnotateImageResponse : Type := {
  text_annotations : list EntityAnnotation
}.

(** The object state set up by [__init__].  [client_text_detection] stands for
    [self.client.text_detection]: given the image bytes it raises or answers. *)
Record ImageTextExtractor : Type := {
  data_dir : string;
  output_dir : string;
  client_text_detection : string → exn + AnnotateImageResponse
}.

Record ImageRecord : Type := {
  image_url : string;
  raw_text : string
}.

Definition DataFrame : Type := list ImageRecord.

Definition pd_concat (frames : list DataFrame) : DataFrame := concat frames.

(** What [to_excel(index=False)] writes: the header row and the data rows. *)
Record Spreadsheet : Type := {
  header : list string;
  body : list (list string)
}.

Definition to_excel (df : DataFrame) : Spreadsheet :=
  {| header := ["image_url"; "raw_text"];
     body := map (λ r, [image_url r; raw_text r]) df |}.

(** ** Effects *)

Inductive event : Type :=
| PrintProcessingFolder (folder : string)
| PrintErrorImage (image_path : string) (e : exn)
| PrintErrorFolder (folder : string) (e : exn)
| Wrote (output_file : string)
| RmtreeCalled (folder_path : string).

(** [data]: the entries of [data_dir] in listing order; [sheets]: the
    spreadsheets on disk by path; [write_protected]: the output paths that
    cannot be created or opened for writing; [trace]: every print, completed
    export write and cleanup call so far, oldest first. *)
Record World : Type := {
  data : list (string * node);
  sheets : gmap string Spreadsheet;
  write_protected : gset string;
  trace : list event
}.

Definition emit (ev : event) (w : World) : World :=
  {| data := data w; sheets := sheets w;
     write_protected := write_protected w; trace := trace w ++ [ev] |}.

Definition emit_all (evs : list event) (w : World) : World :=
  {| data := data w; sheets := sheets w;
     write_protected := write_protected w; trace := trace w ++ evs |}.

Definition set_data (d : list (string * node)) (w : World) : World :=
  {| data := d; sheets := sheets w;
     write_protected := write_protected w; trace := trace w |}.

Definition set_sheets (s : gmap string Spreadsheet) (w : World) : World :=
  {| data := data w; sheets := s;
     write_protected := write_protected w; trace := trace w |}.

(** State and exceptions: a computation maps a world to the world it leaves
    behind and either an exception or a value. *)
Definition M (A : Type) : Type := World → World * (exn + A).

Definition ret {A} (a : A) : M A := λ w, (w, inr a).

Definition bind {A B} (m : M A) (k : A → M B) : M B :=
  λ w, match m w with
       | (w', inr a) => k a w'
       | (w', inl e) => (w', inl e)
       end.

#[global] Instance M_ret : MRet M := @ret.
#[global] Instance M_bind : MBind M := λ A B k m, bind m k.

(** [try: body  except Exception as e: handler(e)] *)
Definition try_except (body : M unit) (handler : exn → M unit) : M unit :=
  λ w, match body w with
       | (w', inr tt) => (w', inr tt)
       | (w', inl e) => handler e w'
       end.

(** A computation that only prints: its output is appended to the trace. *)
Definition printing {A} (c : list event * (exn + A)) : M A :=
  λ w, (emit_all c.1 w, c.2).

(** ** The program *)

(** [extract_text_from_image(image_file)], where [n] is what the path
    [image_file] denotes.  Opening a directory or an unreadable file raises;
    otherwise the bytes go to the service, whose exception propagates. *)
Definition extract_text_from_image (self : ImageTextExtractor)
    (image_file : string) (n : node) : exn + string :=
  match n with
  | Dir _ _ => inl (IsADirectoryError image_file)
  | File readable _ content =>
      if readable then
        match client_text_detection self content with
        | inl e => inl e
        | inr response =>
            let annotations := text_annotations response in
            match annotations with
            | a :: _ => inr (description a)
            | [] => inr ""
            end
        end
      else inl (PermissionError image_file)
  end.

Definition process_image (self : ImageTextExtractor)
    (image_path : string) (n : node) : exn + DataFrame :=
  match extract_text_from_image self image_path n with
  | inl e => inl e
  | inr extracted_text =>
      inr [ {| image_url := image_path; raw_text := extracted_text |} ]
  end.

Definition image_suffixes : list string :=
  [".png"; ".jpg"; ".jpeg"; ".bmp"; ".gif"].

(** The inner loop of [process_folder] over [os.listdir(subfolder_path)];
    [data_frames] is the list being appended to, [out] what was printed. *)
Fixpoint files_loop (self : ImageTextExtractor) (subfolder_path : string)
    (files : list (string * node)) (data_frames : list DataFrame)
    (out : list event) : list DataFrame * list event :=
  match files with
  | [] => (data_frames, out)
  | (file_name, n) :: rest =>
      if negb (endswith_any (lower file_name) image_suffixes) then
        files_loop self subfolder_path rest data_frames out
      else
        let image_path := os_path_join subfolder_path file_name in
        match process_image self image_path n with
        | inr df =>
            files_loop self subfolder_path rest (data_frames ++ [df]) out
        | inl e =>
            files_loop self subfolder_path rest data_frames
              (out ++ [PrintErrorImage image_path e])
        end
  end.

(** The outer loop over [os.listdir(folder_path)].  Listing a subfolder that
    cannot be listed raises out of the loop. *)
Fixpoint subfolders_loop (self : ImageTextExtractor) (folder_path : string)
    (subfolders : list (string * node)) (data_frames : list DataFrame)
    (out : list event) : list event * (exn + list DataFrame) :=
  match subfolders with
  | [] => (out, inr data_frames)
  | (subfolder, n) :: rest =>
      let subfolder_path := os_path_join folder_path subfolder in
      match n with
      | File _ _ _ => subfolders_loop self folder_path rest data_frames out
      | Dir listable files =>
          if listable then
            let '(data_frames', out') :=
              files_loop self subfolder_path files data_frames out in
            subfolders_loop self folder_path rest data_frames' out'
          else (out, inl (PermissionError subfolder_path))
      end
  end.

(** [process_folder(folder_path)], where [n] is what [folder_path] denotes. *)
Definition process_folder (self : ImageTextExtractor)
    (folder_path : string) (n : node) : list event * (exn + DataFrame) :=
  match n with
  | File _ _ _ => ([], inl (NotADirectoryError folder_path))
  | Dir listable subfolders =>
      if listable then
        match subfolders_loop self folder_path subfolders [] [] with
        | (out, inl e) => (out, inl e)
        | (out, inr data_frames) =>
            match data_frames with
            | _ :: _ => (out, inr (pd_concat data_frames))
            | [] => (out, inr [])
            end
        end
      else ([], inl (PermissionError folder_path))
  end.

(** [df.drop_duplicates(subset="image_url", keep="first")]: a row is dropped
    when its [image_url] was seen in an earlier row. *)
Fixpoint drop_duplicates (seen : gset string) (df : DataFrame) : DataFrame :=
  match df with
  | [] => []
  | r :: rest =>
      if bool_decide (image_url r ∈ seen) then drop_duplicates seen rest
      else r :: drop_duplicates ({[ image_url r ]} ∪ seen) rest
  end.

Definition clean_duplicates (df : DataFrame) : DataFrame :=
  drop_duplicates ∅ df.

(** [save_to_excel(df, output_file)].  [os.makedirs] of an empty directory
    name raises; a destination that cannot be created or opened raises and
    leaves the disk as it was; otherwise the file is (over)written. *)
Definition save_to_excel (df : DataFrame) (output_file : string) : M unit :=
  λ w,
    if bool_decide (os_path_dirname output_file = "") then
      (w, inl (FileNotFoundError ""))
    else if bool_decide (output_file ∈ write_protected w) then
      (w, inl (PermissionError output_file))
    else
      (emit (Wrote output_file)
         (set_sheets (<[output_file := to_excel df]> (sheets w)) w),
       inr ()).

(** Removal of one entry by [shutil.rmtree]: a file is unlinked, a directory
    is listed, emptied in listing order and removed.  The first failure raises
    and stops the removal: [Some (n', e)] is the exception with what is left
    of the entry, [None] means the entry is gone. *)
Fixpoint remove_node (path : string) (n : node) {struct n} : option (node * exn) :=
  match n with
  | File _ removable _ =>
      if removable then None else Some (n, PermissionError path)
  | Dir listable entries =>
      if listable then
        match
          (fix remove_entries (es : list (string * node))
             : option (list (string * node) * exn) :=
             match es with
             | [] => None
             | (name, child) :: rest =>
                 match remove_node (os_path_join path name) child with
                 | None => remove_entries rest
                 | Some (child', e) => Some ((name, child') :: rest, e)
                 end
             end) entries
        with
        | None => None
        | Some (entries', e) => Some (Dir listable entries', e)
        end
      else Some (n, PermissionError path)
  end.

(** [shutil.rmtree(folder_path)] for the entry [folder] of [data_dir]. *)
Definition shutil_rmtree (folder folder_path : string) : M unit :=
  λ w,
    let w := emit (RmtreeCalled folder_path) w in
    match lookup_entry folder (data w) with
    | None => (w, inl (FileNotFoundError folder_path))
    | Some (File _ _ _) => (w, inl (NotADirectoryError folder_path))
    | Some (Dir listable entries) =>
        match remove_node folder_path (Dir listable entries) with
        | None => (set_data (remove_entry folder (data w)) w, inr ())
        | Some (n', e) => (set_data (replace_entry folder n' (data w)) w, inl e)
        end
    end.

Definition output_file_of (self : ImageTextExtractor) (folder : string) : string :=
  os_path_join (output_dir self) (folder +:+ "_raw_text_extracted.xlsx").

(** The body of the [try] block of [execute] for one folder. *)
Definition folder_body (self : ImageTextExtractor)
    (folder folder_path : string) (n : node) : M unit :=
  result_df ← printing (process_folder self folder_path n);
  let result_df := clean_duplicates result_df in
  let output_file := output_file_of self folder in
  save_to_excel result_df output_file;;
  shutil_rmtree folder folder_path.

(** One iteration of the loop of [execute]. *)
Definition execute_step (self : ImageTextExtractor) (folder : string) : M unit :=
  λ w,
    let folder_path := os_path_join (data_dir self) folder in
    match lookup_entry folder (data w) with
    | Some (Dir listable entries) =>
        let w := emit (PrintProcessingFolder folder) w in
        try_except
          (folder_body self folder folder_path (Dir listable entries))
          (λ e w', (emit (PrintErrorFolder folder e) w', inr ()))
          w
    | _ => (w, inr ())
    end.

Fixpoint execute_loop (self : ImageTextExtractor) (folders : list string)
    (w : World) : World :=
  match folders with
  | [] => w
  | folder :: rest => execute_loop self rest (execute_step self folder w).1
  end.

(** [execute()], started once [os.listdir(self.data_dir)] has returned. *)
Definition execute (self : ImageTextExtractor) (w : World) : World :=
  execute_loop self (data w).*1 w.

(** ** Vocabulary of the statements *)

Definition has_url (p : string) (r : ImageRecord) : bool :=
  bool_decide (image_url r = p).

(** The test of [process_folder] on a file name. *)
Definition qualifies (file_name : string) : bool :=
  endswith_any (lower file_name) image_suffixes.

(** The entries of one subfolder that pass the test, with their paths. *)
Definition visited_in (subfolder_path : string) (files : list (string * node))
  : list (string * node) :=
  (λ f, (os_path_join subfolder_path f.1, f.2)) <$> filter (λ f, qualifies f.1) files.

(** Every entry that a walk of [subfolders] hands to [process_image], in
    visiting order. *)
Definition visited (folder_path : string) (subfolders : list (string * node))
  : list (string * node) :=
  subfolders ≫= λ e,
    match e.2 with
    | Dir _ files => visited_in (os_path_join folder_path e.1) files
    | File _ _ _ => []
    end.

Definition row_of (self : ImageTextExtractor) (v : string * node) : DataFrame :=
  match extract_text_from_image self v.1 v.2 with
  | inr text => [ {| image_url := v.1; raw_text := text |} ]
  | inl _ => []
  end.

Definition print_of (self : ImageTextExtractor) (v : string * node) : list event :=
  match extract_text_from_image self v.1 v.2 with
  | inr _ => []
  | inl e => [PrintErrorImage v.1 e]
  end.

Definition all_listable (subfolders : list (string * node)) : bool :=
  forallb (λ e, match e.2 with Dir listable _ => listable | File _ _ _ => true end)
    subfolders.

(** [a] as the front part of a joined path: [os_path_join a b] puts a
    separator after [a] unless [a] is empty or already ends with one. *)
Definition dir_prefix (a : string) : string :=
  if bool_decide (a = "") || endswith a sep then a else a +:+ sep.

(** The export of [output_file] raises in world [w]. *)
Definition export_fails (output_file : string) (w : World) : Prop :=
  os_path_dirname output_file = "" ∨ output_file ∈ write_protected w.

(** The world once the walk of [folder] has printed [out], the table [df] has
    been cleaned and exported and [shutil.rmtree] has left [d] of the input. *)
Definition after_export (self : ImageTextExtractor) (folder : string)
    (out : list event) (df : DataFrame) (d : list (string * node))
    (w : World) : World :=
  {| data := d;
     sheets := <[output_file_of self folder := to_excel (clean_duplicates df)]> (sheets w);
     write_protected := write_protected w;
     trace := trace w ++ out ++
              [Wrote (output_file_of self folder);
               RmtreeCalled (os_path_join (data_dir self) folder)] |}.

(** Every cleanup call in the trace comes directly after the completed export
    write of the same folder. *)
Definition export_before_cleanup (self : ImageTextExtractor) (tr : list event) : Prop :=
  ∀ i p, tr !! i = Some (RmtreeCalled p) →
    ∃ j folder, i = S j ∧ p = os_path_join (data_dir self) folder ∧
                tr !! j = Some (Wrote (output_file_of self folder)).

(** ** A sample run *)

(** A service that fails on the bytes ["bad"], finds nothing in ["blank"] and
    otherwise reads the bytes back as the first of two annotations. *)
Definition sample_client (content : string) : exn + AnnotateImageResponse :=
  if bool_decide (content = "bad") then inl (ServiceError "503 unavailable")
  else if bool_decide (content = "blank") then inr {| text_annotations := [] |}
  else inr {| text_annotations :=
                [ {| locale := "en"; description := content |};
                  {| locale := ""; description := "word" |} ] |}.

Definition sample_self : ImageTextExtractor :=
  {| data_dir := "Data/lot/";
     output_dir := "Data Extracted Raw/";
     client_text_detection := sample_client |}.

(** The folder of the example: [s1/{x.jpg, y.png}] and [s2/{y.PNG}]. *)
Definition folder_A : list (string * node) :=
  [ ("s1", Dir true [ ("x.jpg", File true true "card x");
                      ("y.png", File true true "card y") ]);
    ("s2", Dir true [ ("y.PNG", File true true "card y") ]) ].

(** A folder whose second file cannot be unlinked. *)
Definition folder_B : list (string * node) :=
  [ ("s", Dir true [ ("k.png", File true true "card k");
                     ("l.png", File true false "card l") ]) ].

(** A folder with a subfolder that cannot be listed. *)
Definition folder_C : list (string * node) :=
  [ ("u", Dir false [ ("m.png", File true true "card m") ]) ].

(** A folder without any image. *)
Definition folder_D : list (string * node) :=
  [ ("notes", Dir true [ ("readme.txt", File true true "text") ]);
    ("stray.png", File true true "card") ].

(** A folder in which one extraction fails, one file cannot be read, one
    entry with an image name is a directory, and one image is blank. *)
Definition folder_E : list (string * node) :=
  [ ("cards", Dir true [ ("a.png", File true true "alice");
                         ("b.JPG", File true true "bad");
                         ("c.gif", File false true "carol");
                         ("d.bmp", Dir true []);
                         ("e.jpeg", File true true "blank");
                         ("f.tiff", File true true "frank") ]) ].

Definition sample_world : World :=
  {| data := [ ("A", Dir true folder_A); ("index.txt", File true true "");
               ("B", Dir true folder_B); ("C", Dir true folder_C);
               ("D", Dir true folder_D); ("E", Dir true folder_E) ];
     sheets := ∅;
     write_protected := ∅;
     trace := [] |}.


(** * Properties *)

(** ** De-duplication *)

Lemma drop_duplicates_unseen seen df r :
  r ∈ drop_duplicates seen df → image_url r ∉ seen.
Proof.
  revert seen. induction df as [|r' rest IH]; intros seen; simpl.
  - by intros ?%elem_of_nil.
  - case_bool_decide as Hseen.
    + apply IH.
    + intros [->|Hin]%elem_of_cons; [done|].
      apply IH in Hin. set_solver.
Qed.

Lemma drop_duplicates_sublist seen df :
  drop_duplicates seen df `sublist_of` df.
Proof.
  revert seen. induction df as [|r rest IH]; intros seen; simpl; [done|].
  case_bool_decide; [by apply sublist_cons | by apply sublist_skip].
Qed.

Lemma drop_duplicates_NoDup seen df :
  NoDup (image_url <$> drop_duplicates seen df).
Proof.
  revert seen. induction df as [|r rest IH]; intros seen; simpl.
  - constructor.
  - case_bool_decide; [apply IH|].
    rewrite fmap_cons. constructor; [|apply IH].
    intros (r' & Hurl & Hin%drop_duplicates_unseen)%list_elem_of_fmap.
    set_solver.
Qed.

Lemma drop_duplicates_find seen df p :
  p ∉ seen →
  find (has_url p) (drop_duplicates seen df) = find (has_url p) df.
Proof.
  revert seen. induction df as [|r rest IH]; intros seen Hp; simpl; [done|].
  unfold has_url at 2. case_bool_decide as Hseen; case_bool_decide as Hr.
  - subst. done.
  - by apply IH.
  - simpl. unfold has_url at 1. by rewrite bool_decide_eq_true_2.
  - simpl. unfold has_url at 1. rewrite bool_decide_eq_false_2 by done.
    apply IH. rewrite elem_of_union, elem_of_singleton. by intros [?|?].
Qed.

Lemma drop_duplicates_fixed seen df :
  (∀ r, r ∈ df → image_url r ∉ seen) →
  NoDup (image_url <$> df) →
  drop_duplicates seen df = df.
Proof.
  revert seen. induction df as [|r rest IH]; intros seen Hseen Hnd; simpl; [done|].
  rewrite fmap_cons in Hnd. apply NoDup_cons in Hnd as [Hr Hnd].
  rewrite bool_decide_eq_false_2 by (apply Hseen; left).
  f_equal. apply IH; [|done].
  intros r' Hin. specialize (Hseen r' ltac:(by right)).
  rewrite elem_of_union, elem_of_singleton. intros [Heq|?]; [|done].
  apply Hr. rewrite <- Heq. by apply list_elem_of_fmap_2.
Qed.

Lemma clean_duplicates_fixed df :
  NoDup (image_url <$> df) → clean_duplicates df = df.
Proof. intros. apply drop_duplicates_fixed; [set_solver|done]. Qed.

Lemma NoDup_fmap_count {A B} `{EqDecision B} (f : A → B) (l : list A) (b : B) :
  NoDup (f <$> l) → length (filter (λ x, f x = b) l) ≤ 1.
Proof.
  induction l as [|x l IH]; [simpl; lia|].
  rewrite fmap_cons, NoDup_cons. intros [Hx Hnd].
  rewrite filter_cons. case_decide as Hfx; [|by apply IH].
  destruct (filter (λ x, f x = b) l) as [|y ys] eqn:E; [simpl; lia|].
  assert (y ∈ filter (λ x, f x = b) l) as [Hfy Hy]%list_elem_of_filter
    by (rewrite E; left).
  exfalso. apply Hx. rewrite Hfx, <- Hfy. by apply list_elem_of_fmap_2.
Qed.

(** C1: [clean_duplicates] yields a table whose [image_url] values are
    pairwise distinct, whose rows are rows of the input in their original
    relative order, and in which, for every path, the row carrying that path
    is the first row of the input carrying it. *)
Theorem clean_duplicates_keeps_first (df : DataFrame) :
  NoDup (image_url <$> clean_duplicates df) ∧
  clean_duplicates df `sublist_of` df ∧
  ∀ p, find (has_url p) (clean_duplicates df) = find (has_url p) df.
Proof.
  split_and!.
  - apply drop_duplicates_NoDup.
  - apply drop_duplicates_sublist.
  - intros p. apply drop_duplicates_find. set_solver.
Qed.

(** C7: [clean_duplicates] is idempotent, and its output holds at most one
    row for any image path. *)
Theorem clean_duplicates_idempotent (df : DataFrame) :
  clean_duplicates (clean_duplicates df) = clean_duplicates df ∧
  ∀ p, length (filter (λ r, image_url r = p) (clean_duplicates df)) ≤ 1.
Proof.
  split.
  - apply clean_duplicates_fixed, drop_duplicates_NoDup.
  - intros p. apply NoDup_fmap_count, drop_duplicates_NoDup.
Qed.

(** ** The walk *)

Lemma files_loop_spec self sp files dfs out :
  files_loop self sp files dfs out =
    (dfs ++ ((λ r, [r]) <$> (visited_in sp files ≫= row_of self)),
     out ++ (visited_in sp files ≫= print_of self)).
Proof.
  revert dfs out. unfold visited_in.
  induction files as [|[file_name n] rest IH]; intros dfs out.
  - simpl. by rewrite !app_nil_r.
  - cbn [files_loop]. rewrite filter_cons. fold (qualifies file_name).
    destruct (qualifies file_name) eqn:Hq; cbn [negb]; case_decide as Hd;
      simpl in Hd; rewrite Hq in Hd; try (by destruct Hd).
    + rewrite fmap_cons, !bind_cons. cbn [fst snd].
      unfold row_of at 1, print_of at 1, process_image. cbn [fst snd].
      destruct (extract_text_from_image self _ n) as [e|text].
      * rewrite IH. by rewrite <- app_assoc.
      * rewrite IH. simpl. by rewrite <- app_assoc.
    + apply IH.
Qed.

Lemma subfolders_loop_spec self fp subs dfs out :
  all_listable subs = true →
  subfolders_loop self fp subs dfs out =
    (out ++ (visited fp subs ≫= print_of self),
     inr (dfs ++ ((λ r, [r]) <$> (visited fp subs ≫= row_of self)))).
Proof.
  revert dfs out. unfold visited.
  induction subs as [|[s n] rest IH]; intros dfs out Hl.
  - simpl. by rewrite !app_nil_r.
  - cbn [subfolders_loop]. simpl in Hl. apply andb_true_iff in Hl as [Hn Hl].
    rewrite bind_cons. cbn [fst snd]. destruct n as [? ? ?|listable files].
    + simpl. by apply IH.
    + rewrite Hn, files_loop_spec, IH by done.
      by rewrite !bind_app, fmap_app, <- !app_assoc.
Qed.

Lemma subfolders_loop_inr self fp subs dfs out out' dfs' :
  subfolders_loop self fp subs dfs out = (out', inr dfs') →
  all_listable subs = true.
Proof.
  revert dfs out. induction subs as [|[s n] rest IH]; intros dfs out; [done|].
  cbn [subfolders_loop]. destruct n as [? ? ?|[] files]; simpl.
  - apply IH.
  - destruct (files_loop _ _ _ _ _). apply IH.
  - done.
Qed.

Lemma concat_singletons {A} (l : list A) : concat ((λ r, [r]) <$> l) = l.
Proof. induction l; simpl; by f_equal. Qed.

Lemma process_folder_listable self fp subs :
  all_listable subs = true →
  process_folder self fp (Dir true subs) =
    (visited fp subs ≫= print_of self, inr (visited fp subs ≫= row_of self)).
Proof.
  intros Hl. unfold process_folder. rewrite subfolders_loop_spec by done.
  rewrite !app_nil_l. destruct (visited fp subs ≫= row_of self) as [|r l] eqn:E.
  - done.
  - rewrite <- E. cbn [fmap list_fmap]. unfold pd_concat.
    rewrite E. by rewrite <- (concat_singletons (r :: l)) at 2.
Qed.

Lemma process_folder_inr self fp n out df :
  process_folder self fp n = (out, inr df) →
  ∃ subs, n = Dir true subs ∧ all_listable subs = true ∧
          out = visited fp subs ≫= print_of self ∧
          df = visited fp subs ≫= row_of self.
Proof.
  destruct n as [? ? ?|[] subs]; try done.
  intros H. exists subs.
  destruct (subfolders_loop self fp subs [] []) as [out' [e|dfs]] eqn:E.
  - unfold process_folder in H. by rewrite E in H.
  - apply subfolders_loop_inr in E as Hl.
    rewrite process_folder_listable in H by done. by simplify_eq.
Qed.

(** ** Strings and paths *)

Lemma append_nil_l s : "" +:+ s = s.
Proof. done. Qed.

Lemma append_cons c a s : String c a +:+ s = String c (a +:+ s).
Proof. done. Qed.

Lemma append_assoc a b c : (a +:+ b) +:+ c = a +:+ (b +:+ c).
Proof.
  induction a as [|x a IH]; [done|].
  rewrite !append_cons. by f_equal.
Qed.

Lemma append_nil_inv a b : a +:+ b = "" → a = "" ∧ b = "".
Proof. destruct a; [by rewrite append_nil_l|by rewrite append_cons]. Qed.

Lemma endswith_spec s suffix :
  endswith s suffix = true → ∃ pre, s = pre +:+ suffix.
Proof.
  induction s as [|c s IH]; simpl; case_bool_decide as Heq.
  - intros _. exists "". by subst.
  - done.
  - intros _. exists "". by subst.
  - intros [pre ->]%IH. exists (String c pre). by rewrite append_cons.
Qed.

Lemma startswith_sep_no_sep s : no_sep s = true → startswith s sep = false.
Proof.
  destruct s as [|c s]; [done|]. simpl.
  intros [Hc _]%andb_true_iff. apply negb_true_iff, bool_decide_eq_false in Hc.
  by rewrite bool_decide_eq_false_2.
Qed.

Lemma endswith_sep_no_sep s : no_sep s = true → endswith s sep = false.
Proof.
  induction s as [|c s IH]; [done|]. simpl.
  intros [Hc Hs]%andb_true_iff. apply negb_true_iff, bool_decide_eq_false in Hc.
  case_bool_decide as Heq; [|by apply IH].
  unfold sep in Heq. by simplify_eq.
Qed.

Lemma endswith_sep_app a s : s ≠ "" → endswith (a +:+ s) sep = endswith s sep.
Proof.
  intros Hs. induction a as [|c a IH]; [done|].
  rewrite append_cons. simpl.
  case_bool_decide as Heq; [|done].
  unfold sep in Heq. simplify_eq. by destruct (append_nil_inv a s).
Qed.

Lemma join_no_sep a b : no_sep b = true → os_path_join a b = dir_prefix a +:+ b.
Proof.
  intros Hb. unfold os_path_join, dir_prefix.
  rewrite startswith_sep_no_sep by done.
  destruct (bool_decide (a = "") || endswith a sep); [done|].
  by rewrite append_assoc.
Qed.

Lemma valid_name_spec s : valid_name s = true → s ≠ "" ∧ no_sep s = true.
Proof.
  unfold valid_name. intros [H1 H2]%andb_true_iff. split; [|done].
  by apply negb_true_iff, bool_decide_eq_false in H1.
Qed.

Lemma join_join_valid fp s f :
  valid_name s = true → valid_name f = true →
  os_path_join (os_path_join fp s) f = dir_prefix fp +:+ s +:+ sep +:+ f.
Proof.
  intros [Hs1 Hs2]%valid_name_spec [Hf1 Hf2]%valid_name_spec.
  rewrite (join_no_sep _ f), (join_no_sep _ s) by done.
  unfold dir_prefix at 1.
  rewrite endswith_sep_app, endswith_sep_no_sep by done.
  rewrite bool_decide_eq_false_2; [cbn [orb]; by rewrite !append_assoc|].
  intros [_ ?]%append_nil_inv. done.
Qed.

Lemma sep_append s : sep +:+ s = String "/" s.
Proof. done. Qed.

Lemma sep_split_inj s s' f f' :
  no_sep s = true → no_sep s' = true →
  s +:+ sep +:+ f = s' +:+ sep +:+ f' → s = s' ∧ f = f'.
Proof.
  revert s'. induction s as [|c s IH]; intros [|c' s'] Hs Hs' Heq;
    rewrite ?append_nil_l, ?append_cons, ?sep_append in Heq;
    simpl in Hs, Hs'.
  - by simplify_eq.
  - simplify_eq; done.
  - simplify_eq; done.
  - apply andb_true_iff in Hs as [_ Hs]. apply andb_true_iff in Hs' as [_ Hs'].
    simplify_eq. destruct (IH s' Hs Hs') as [-> ->]; done.
Qed.

Lemma join_join_inj fp s s' f f' :
  valid_name s = true → valid_name s' = true →
  valid_name f = true → valid_name f' = true →
  os_path_join (os_path_join fp s) f = os_path_join (os_path_join fp s') f' →
  s = s' ∧ f = f'.
Proof.
  intros Hs Hs' Hf Hf'. rewrite !join_join_valid by done.
  intros Heq%(inj (String.app _)).
  apply valid_name_spec in Hs as [_ Hs]. apply valid_name_spec in Hs' as [_ Hs'].
  by apply sep_split_inj.
Qed.

(** ** Directory listings *)

Lemma listing_ok_cons f n rest :
  listing_ok ((f, n) :: rest) = true →
  valid_name f = true ∧ (f ∉ rest.*1) ∧ listing_ok rest = true.
Proof.
  unfold listing_ok. rewrite fmap_cons. cbn [forallb fst].
  intros [[Hf Hv]%andb_true_iff Hnd%bool_decide_eq_true]%andb_true_iff.
  apply NoDup_cons in Hnd as [Hnotin Hnd].
  split_and!; [done..|]. rewrite Hv. by rewrite bool_decide_eq_true_2.
Qed.

Lemma listing_ok_valid es f n :
  listing_ok es = true → (f, n) ∈ es → valid_name f = true.
Proof.
  induction es as [|[f' n'] rest IH]; [by intros _ ?%elem_of_nil|].
  intros (Hf & _ & Hrest)%listing_ok_cons [?|Hin]%elem_of_cons.
  - by simplify_eq.
  - by apply IH.
Qed.

Lemma folder_ok_cons s n rest :
  folder_ok ((s, n) :: rest) = true →
  valid_name s = true ∧ (s ∉ rest.*1) ∧
  (∀ l files, n = Dir l files → listing_ok files = true) ∧
  folder_ok rest = true.
Proof.
  unfold folder_ok. cbn [forallb snd].
  intros [(Hs & Hnotin & Hrest)%listing_ok_cons [Hn Hall]%andb_true_iff]%andb_true_iff.
  split_and!; [done..| |].
  - intros l files ->. done.
  - by rewrite Hrest, Hall.
Qed.

Lemma folder_ok_elem subs s l files :
  folder_ok subs = true → (s, Dir l files) ∈ subs →
  valid_name s = true ∧ listing_ok files = true.
Proof.
  induction subs as [|[s' n'] rest IH]; [by intros _ ?%elem_of_nil|].
  intros (Hs & _ & Hn & Hrest)%folder_ok_cons [?|Hin]%elem_of_cons.
  - simplify_eq. eauto.
  - by apply IH.
Qed.

(** ** What the walk visits *)

Lemma visited_in_cons sp f n rest :
  visited_in sp ((f, n) :: rest) =
    if qualifies f then (os_path_join sp f, n) :: visited_in sp rest
    else visited_in sp rest.
Proof.
  unfold visited_in. rewrite filter_cons. cbn [fst].
  destruct (qualifies f) eqn:Hq; case_decide as Hd; try done.
  all: rewrite ?Hq in Hd; by destruct Hd.
Qed.

Lemma elem_of_visited_in sp files p n :
  (p, n) ∈ visited_in sp files ↔
  ∃ f, (f, n) ∈ files ∧ qualifies f = true ∧ p = os_path_join sp f.
Proof.
  induction files as [|[f' n'] rest IH].
  - split; [by intros ?%elem_of_nil|]. by intros (? & ?%elem_of_nil & _).
  - rewrite visited_in_cons. destruct (qualifies f') eqn:Hq.
    + rewrite elem_of_cons, IH. split.
      * intros [Heq|(f & Hin & Hqf & Hp)].
        -- injection Heq as -> ->. exists f'. split_and!; [by left|done..].
        -- exists f. split_and!; [by right|done..].
      * intros (f & [Heq|Hin]%elem_of_cons & Hqf & ->).
        -- injection Heq as -> ->. by left.
        -- right. by exists f.
    + rewrite IH. split.
      * intros (f & Hin & Hqf & Hp). exists f. split_and!; [by right|done..].
      * intros (f & [Heq|Hin]%elem_of_cons & Hqf & ->).
        -- injection Heq as -> ->. congruence.
        -- by exists f.
Qed.

Lemma visited_cons fp s n rest :
  visited fp ((s, n) :: rest) =
    match n with
    | Dir _ files => visited_in (os_path_join fp s) files
    | File _ _ _ => []
    end ++ visited fp rest.
Proof. done. Qed.

Lemma elem_of_visited fp subs p n :
  (p, n) ∈ visited fp subs ↔
  ∃ s l files f, (s, Dir l files) ∈ subs ∧ (f, n) ∈ files ∧
                 qualifies f = true ∧
                 p = os_path_join (os_path_join fp s) f.
Proof.
  unfold visited. rewrite list_elem_of_bind. split.
  - intros ([s [? ? ?|l files]] & Hin & Hsub); cbn [fst snd] in Hin;
      [by apply elem_of_nil in Hin|].
    apply elem_of_visited_in in Hin as (f & ? & ? & ?).
    by exists s, l, files, f.
  - intros (s & l & files & f & ? & ? & ? & ?).
    exists (s, Dir l files). split; [|done].
    cbn [fst snd]. apply elem_of_visited_in. by exists f.
Qed.

Lemma elem_of_rows self v r :
  r ∈ v ≫= row_of self ↔
  ∃ n, (image_url r, n) ∈ v ∧
       extract_text_from_image self (image_url r) n = inr (raw_text r).
Proof.
  rewrite list_elem_of_bind. unfold row_of. split.
  - intros ([p n] & Hr & Hin). cbn [fst snd] in Hr.
    destruct (extract_text_from_image self p n) as [e|text] eqn:E;
      [by apply elem_of_nil in Hr|].
    apply list_elem_of_singleton in Hr as ->. by exists n.
  - intros (n & Hin & E). exists (image_url r, n). split; [|done].
    cbn [fst snd]. rewrite E. destruct r. apply list_elem_of_singleton. done.
Qed.


Lemma rows_urls_sublist self v :
  image_url <$> (v ≫= row_of self) `sublist_of` v.*1.
Proof.
  induction v as [|[p n] rest IH]; [done|].
  rewrite bind_cons, fmap_app, fmap_cons. unfold row_of at 1. cbn [fst snd].
  destruct (extract_text_from_image self p n).
  - by apply sublist_cons.
  - by apply sublist_skip.
Qed.


Lemma visited_in_NoDup fp s files :
  valid_name s = true → listing_ok files = true →
  NoDup (visited_in (os_path_join fp s) files).*1.
Proof.
  intros Hs. induction files as [|[f n] rest IH]; [constructor|].
  intros Hok. pose proof Hok as (Hf & Hnotin & Hrest)%listing_ok_cons.
  rewrite visited_in_cons. destruct (qualifies f); [|by apply IH].
  rewrite fmap_cons, NoDup_cons. split; [|by apply IH].
  cbn [fst]. intros ([p n'] & Hp & Hin)%list_elem_of_fmap. cbn [fst] in Hp. subst p.
  apply elem_of_visited_in in Hin as (f' & Hin' & _ & Heq).
  apply join_join_inj in Heq as [_ ->]; try done.
  - apply Hnotin. by apply (list_elem_of_fmap_2 fst _ (f', n')).
  - by eapply listing_ok_valid.
Qed.

Lemma visited_NoDup fp subs :
  folder_ok subs = true → NoDup (visited fp subs).*1.
Proof.
  induction subs as [|[s n] rest IH]; [constructor|].
  intros (Hs & Hnotin & Hn & Hrest)%folder_ok_cons.
  rewrite visited_cons, fmap_app. apply NoDup_app. split_and!; [| |by apply IH].
  - destruct n as [? ? ?|l files]; [constructor|].
    apply visited_in_NoDup; eauto.
  - destruct n as [? ? ?|l files]; [by intros ? ?%elem_of_nil|].
    intros p ([p1 n1] & Hp1 & Hin1)%list_elem_of_fmap
             ([p2 n2] & Hp2 & Hin2)%list_elem_of_fmap.
    cbn [fst] in Hp1, Hp2. subst p1 p2.
    apply elem_of_visited_in in Hin1 as (f1 & Hf1 & _ & Heq1).
    apply elem_of_visited in Hin2 as (s2 & l2 & files2 & f2 & Hs2 & Hf2 & _ & Heq2).
    destruct (folder_ok_elem rest s2 l2 files2) as [Hv2 Hok2]; [done..|].
    rewrite Heq1 in Heq2. apply join_join_inj in Heq2 as [-> _]; try done.
    + apply Hnotin. by apply (list_elem_of_fmap_2 fst _ (s2, Dir l2 files2)).
    + eapply listing_ok_valid; [|done]. eauto.
    + by eapply listing_ok_valid.
Qed.

Lemma rows_NoDup self fp subs :
  folder_ok subs = true →
  NoDup (image_url <$> (visited fp subs ≫= row_of self)).
Proof.
  intros Hok. eapply sublist_NoDup; [|apply rows_urls_sublist].
  by apply visited_NoDup.
Qed.

(** ** The driver *)


Lemma lookup_remove_entry k es : lookup_entry k (remove_entry k es) = None.
Proof.
  induction es as [|[k' m] rest IH]; [done|]. simpl.
  case_bool_decide as Hk; [done|]. simpl.
  by rewrite bool_decide_eq_false_2.
Qed.

Lemma remove_node_dir path l es n' e :
  remove_node path (Dir l es) = Some (n', e) → ∃ l' es', n' = Dir l' es'.
Proof.
  simpl. destruct l; [|intros; simplify_eq; eauto].
  match goal with |- context [match ?x with _ => _ end] => destruct x as [[es' e']|] end;
    intros; simplify_eq; eauto.
Qed.

(** The four ways the [try] block of [execute] can end. *)
Lemma folder_body_cases self folder l es w w' r :
  lookup_entry folder (data w) = Some (Dir l es) →
  folder_body self folder (os_path_join (data_dir self) folder) (Dir l es) w = (w', r) →
  let fp := os_path_join (data_dir self) folder in
  let pf := process_folder self fp (Dir l es) in
  (∃ e, pf.2 = inl e ∧ r = inl e ∧ w' = emit_all pf.1 w)
  ∨ (∃ df e, pf.2 = inr df ∧ export_fails (output_file_of self folder) w ∧
             r = inl e ∧ w' = emit_all pf.1 w)
  ∨ (∃ df n' e, pf.2 = inr df ∧ ¬ export_fails (output_file_of self folder) w ∧
                remove_node fp (Dir l es) = Some (n', e) ∧ r = inl e ∧
                w' = after_export self folder pf.1 df
                       (replace_entry folder n' (data w)) w)
  ∨ (∃ df, pf.2 = inr df ∧ ¬ export_fails (output_file_of self folder) w ∧
           remove_node fp (Dir l es) = None ∧ r = inr () ∧
           w' = after_export self folder pf.1 df (remove_entry folder (data w)) w).
Proof.
  intros Hlook Hbody fp pf. unfold folder_body in Hbody.
  unfold mbind, M_bind, bind, printing in Hbody. fold fp pf in Hbody.
  destruct pf as [out [e|df]] eqn:Hpf; cbn [fst snd] in *.
  { left. exists e. by simplify_eq. }
  right. unfold save_to_excel in Hbody. unfold export_fails.
  cbn [write_protected emit_all] in Hbody.
  case_bool_decide as Hdir.
  { left. eexists df, _. split_and!; [done|by left|by simplify_eq..]. }
  case_bool_decide as Hwp.
  { left. eexists df, _. split_and!; [done|by right|by simplify_eq..]. }
  right. unfold shutil_rmtree in Hbody. cbn [emit set_sheets emit_all data] in Hbody.
  rewrite Hlook in Hbody. fold fp in Hbody.
  destruct (remove_node fp (Dir l es)) as [[n' e]|] eqn:Hrm.
  - left. exists df, n', e. split_and!; [done|tauto|done|by simplify_eq|].
    simplify_eq. unfold after_export, set_data, emit. cbn.
    f_equal. by rewrite <- !app_assoc.
  - right. exists df. split_and!; [done|tauto|done|by simplify_eq|].
    simplify_eq. unfold after_export, set_data, emit. cbn.
    f_equal. by rewrite <- !app_assoc.
Qed.

(** ** The extractor *)

(** C8: for a readable image file and any answer of the service,
    [extract_text_from_image] returns the description of the first text
    annotation of the answer, and the empty string when the answer has no
    text annotation. *)
Theorem extract_text_first_annotation self image_file removable content response :
  client_text_detection self content = inr response →
  extract_text_from_image self image_file (File true removable content) =
    inr (default "" (description <$> head (text_annotations response))) ∧
  (text_annotations response = [] →
   extract_text_from_image self image_file (File true removable content) = inr "") ∧
  (∀ a rest, text_annotations response = a :: rest →
   extract_text_from_image self image_file (File true removable content) =
     inr (description a)).
Proof.
  intros Hresp. unfold extract_text_from_image. rewrite Hresp.
  destruct (text_annotations response) as [|a rest]; split_and!; try done.
  intros ? ? [= -> ->]. done.
Qed.

Lemma extract_text_first_annotation_witness :
  extract_text_from_image sample_self "Data/lot/A/s1/x.jpg"
    (File true true "card x") = inr "card x" ∧
  extract_text_from_image sample_self "Data/lot/E/cards/e.jpeg"
    (File true true "blank") = inr "".
Proof.
  split.
  - apply (extract_text_first_annotation sample_self "Data/lot/A/s1/x.jpg" true
             "card x"
             {| text_annotations :=
                  [ {| locale := "en"; description := "card x" |};
                    {| locale := ""; description := "word" |} ] |});
      reflexivity.
  - apply (extract_text_first_annotation sample_self "Data/lot/E/cards/e.jpeg" true
             "blank" {| text_annotations := [] |}); reflexivity.
Defined.

(** ** The table of one folder *)

Lemma extract_inr_file self p n text :
  extract_text_from_image self p n = inr text →
  ∃ removable content, n = File true removable content.
Proof.
  destruct n as [[] removable content|]; [eauto|done..].
Qed.

Lemma qualifies_spec f :
  qualifies f = true →
  ∃ stem ext, ext ∈ ["png"; "jpg"; "jpeg"; "bmp"; "gif"] ∧
              lower f = stem +:+ "." +:+ ext.
Proof.
  unfold qualifies, endswith_any, image_suffixes. cbn [existsb].
  rewrite !orb_true_iff.
  intros [H|[H|[H|[H|[H|H]]]]]; [| | | | |done];
    apply endswith_spec in H as [stem ->]; exists stem.
  - exists "png". split; [set_solver|done].
  - exists "jpg". split; [set_solver|done].
  - exists "jpeg". split; [set_solver|done].
  - exists "bmp". split; [set_solver|done].
  - exists "gif". split; [set_solver|done].
Qed.

(** C6: every row of the table that [process_folder] returns is the row of a
    file lying in an immediate subdirectory of the folder, and the name of
    that file, in lower case, ends with a dot and one of png, jpg, jpeg, bmp,
    gif.  A file with another extension therefore has no row. *)
Theorem process_folder_only_images self folder_path n out df r :
  process_folder self folder_path n = (out, inr df) →
  r ∈ df →
  ∃ subfolders subfolder listable files file_name removable content,
    n = Dir true subfolders ∧
    (subfolder, Dir listable files) ∈ subfolders ∧
    (file_name, File true removable content) ∈ files ∧
    image_url r = os_path_join (os_path_join folder_path subfolder) file_name ∧
    ∃ stem ext, ext ∈ ["png"; "jpg"; "jpeg"; "bmp"; "gif"] ∧
                lower file_name = stem +:+ "." +:+ ext.
Proof.
  intros (subs & -> & Hl & -> & ->)%process_folder_inr.
  intros (nd & Hv & Hex)%elem_of_rows.
  apply elem_of_visited in Hv as (s & l & files & f & Hs & Hf & Hq & Hp).
  apply extract_inr_file in Hex as (removable & content & ->).
  exists subs, s, l, files, f, removable, content.
  split_and!; [done..|]. by apply qualifies_spec.
Qed.

Lemma process_folder_only_images_witness :
  ∃ subfolder listable files file_name removable content,
    (subfolder, Dir listable files) ∈ folder_E ∧
    (file_name, File true removable content) ∈ files ∧
    "Data/lot/E/cards/a.png" = os_path_join (os_path_join "Data/lot/E" subfolder) file_name ∧
    ∃ stem ext, ext ∈ ["png"; "jpg"; "jpeg"; "bmp"; "gif"] ∧
                lower file_name = stem +:+ "." +:+ ext.
Proof.
  destruct (process_folder_only_images sample_self "Data/lot/E" (Dir true folder_E)
              (process_folder sample_self "Data/lot/E" (Dir true folder_E)).1
              [ {| image_url := "Data/lot/E/cards/a.png"; raw_text := "alice" |};
                {| image_url := "Data/lot/E/cards/e.jpeg"; raw_text := "" |} ]
              {| image_url := "Data/lot/E/cards/a.png"; raw_text := "alice" |})
    as (subs & s & l & files & f & rm & c & Hn & H).
  - reflexivity.
  - left.
  - injection Hn as <-. by exists s, l, files, f, rm, c.
Defined.

(** C10: when the two directory levels walked are proper listings (valid
    names, no name twice), the table of [process_folder] has pairwise distinct
    [image_url] values, and [clean_duplicates] returns it unchanged. *)
Theorem process_folder_table_is_clean self folder_path listable subfolders out df :
  folder_ok subfolders = true →
  process_folder self folder_path (Dir listable subfolders) = (out, inr df) →
  NoDup (image_url <$> df) ∧ clean_duplicates df = df.
Proof.
  intros Hok (subs & [= -> ->] & Hl & -> & ->)%process_folder_inr.
  assert (NoDup (image_url <$> (visited folder_path subs ≫= row_of self)))
    by by apply rows_NoDup.
  split; [done|]. by apply clean_duplicates_fixed.
Qed.

Lemma process_folder_table_is_clean_witness :
  folder_ok folder_A = true ∧
  clean_duplicates
    [ {| image_url := "Data/lot/A/s1/x.jpg"; raw_text := "card x" |};
      {| image_url := "Data/lot/A/s1/y.png"; raw_text := "card y" |};
      {| image_url := "Data/lot/A/s2/y.PNG"; raw_text := "card y" |} ] =
    [ {| image_url := "Data/lot/A/s1/x.jpg"; raw_text := "card x" |};
      {| image_url := "Data/lot/A/s1/y.png"; raw_text := "card y" |};
      {| image_url := "Data/lot/A/s2/y.PNG"; raw_text := "card y" |} ].
Proof.
  split; [reflexivity|].
  apply (process_folder_table_is_clean sample_self "Data/lot/A" true folder_A []);
    reflexivity.
Defined.

(** ** One iteration of the driver, in closed form *)

Lemma execute_step_dir self folder l es w :
  lookup_entry folder (data w) = Some (Dir l es) →
  execute_step self folder w =
    try_except
      (folder_body self folder (os_path_join (data_dir self) folder) (Dir l es))
      (λ e w', (emit (PrintErrorFolder folder e) w', inr ()))
      (emit (PrintProcessingFolder folder) w).
Proof. intros Hlook. unfold execute_step. by rewrite Hlook. Qed.

Lemma execute_step_skip self folder w :
  (∀ l es, lookup_entry folder (data w) ≠ Some (Dir l es)) →
  execute_step self folder w = (w, inr ()).
Proof.
  intros Hno. unfold execute_step.
  destruct (lookup_entry folder (data w)) as [[? ? ?|l es]|]; try done.
  by destruct (Hno l es).
Qed.


Lemma execute_step_walk_failed self folder l es w out e :
  let fp := os_path_join (data_dir self) folder in
  lookup_entry folder (data w) = Some (Dir l es) →
  process_folder self fp (Dir l es) = (out, inl e) →
  (execute_step self folder w).1 =
    emit (PrintErrorFolder folder e)
      (emit_all out (emit (PrintProcessingFolder folder) w)).
Proof.
  intros fp Hlook Hpf. rewrite (execute_step_dir _ _ l es) by done.
  unfold try_except.
  destruct (folder_body _ _ _ _ _) as [w' r] eqn:Hb.
  apply folder_body_cases in Hb; [|done]. fold fp in Hb. rewrite Hpf in Hb.
  cbn [fst snd] in Hb.
  destruct Hb as [(e' & [= <-] & -> & ->)|[(df' & e' & ? & _)|
                 [(df' & n' & e' & ? & _)|(df' & ? & _)]]]; done.
Qed.

Lemma execute_step_export_failed self folder l es w out df :
  let fp := os_path_join (data_dir self) folder in
  lookup_entry folder (data w) = Some (Dir l es) →
  process_folder self fp (Dir l es) = (out, inr df) →
  export_fails (output_file_of self folder) w →
  ∃ e, (execute_step self folder w).1 =
         emit (PrintErrorFolder folder e)
           (emit_all out (emit (PrintProcessingFolder folder) w)).
Proof.
  intros fp Hlook Hpf Hexp. rewrite (execute_step_dir _ _ l es) by done.
  unfold try_except.
  destruct (folder_body _ _ _ _ _) as [w' r] eqn:Hb.
  apply folder_body_cases in Hb; [|done]. fold fp in Hb. rewrite Hpf in Hb.
  cbn [fst snd] in Hb.
  destruct Hb as [(e' & ? & _)|[(df' & e' & _ & _ & -> & ->)|
                 [(df' & n' & e' & _ & Hno & _)|(df' & _ & Hno & _)]]];
    [done|by exists e'|by destruct Hno..].
Qed.

(** ** Failure of one image *)



(** ** The example folder *)

Lemma rows_prints_length self v :
  length (v ≫= row_of self) + length (v ≫= print_of self) = length v.
Proof.
  induction v as [|[p n] rest IH]; [done|].
  rewrite !bind_cons, !length_app. unfold row_of at 1, print_of at 1.
  cbn [fst snd length]. destruct (extract_text_from_image self p n); simpl; lia.
Qed.

(** C5, as the code has it: for a folder with subfolder [s1] holding [x.jpg]
    and [y.png] and subfolder [s2] holding [y.PNG], in whatever order the
    listings come, [clean_duplicates] removes nothing from the table, and the
    three files account for three rows, less one for every extraction error
    printed.  With no extraction error the exported table has three rows. *)
Theorem example_folder_keeps_every_row self folder_path subfolders files1
    nx ny nY out df :
  subfolders ≡ₚ [ ("s1", Dir true files1); ("s2", Dir true [ ("y.PNG", nY) ]) ] →
  files1 ≡ₚ [ ("x.jpg", nx); ("y.png", ny) ] →
  process_folder self folder_path (Dir true subfolders) = (out, inr df) →
  clean_duplicates df = df ∧
  length (clean_duplicates df) + length out = 3 ∧
  (out = [] → length (clean_duplicates df) = 3).
Proof.
  intros Hsubs Hfiles Hpf.
  assert (folder_ok subfolders = true ∧ length (visited folder_path subfolders) = 3)
    as [Hok Hlen].
  { symmetry in Hsubs, Hfiles.
    apply Permutation_length_2_inv in Hsubs, Hfiles.
    destruct Hsubs as [->| ->], Hfiles as [->| ->]; by vm_compute. }
  pose proof Hpf as (subs & [= <-] & Hl & -> & ->)%process_folder_inr.
  assert (clean_duplicates (visited folder_path subfolders ≫= row_of self) =
          visited folder_path subfolders ≫= row_of self) as Hclean
    by by apply clean_duplicates_fixed, rows_NoDup.
  rewrite Hclean, rows_prints_length. split_and!; [done..|].
  intros Hout. pose proof (rows_prints_length self (visited folder_path subfolders)) as H.
  rewrite Hout in H. simpl in H. lia.
Qed.

Lemma example_folder_keeps_every_row_witness :
  length (clean_duplicates
            [ {| image_url := "Data/lot/A/s1/x.jpg"; raw_text := "card x" |};
              {| image_url := "Data/lot/A/s1/y.png"; raw_text := "card y" |};
              {| image_url := "Data/lot/A/s2/y.PNG"; raw_text := "card y" |} ]) = 3.
Proof.
  apply (example_folder_keeps_every_row sample_self "Data/lot/A" folder_A
           [ ("x.jpg", File true true "card x"); ("y.png", File true true "card y") ]
           (File true true "card x") (File true true "card y")
           (File true true "card y") []);
    reflexivity.
Defined.

(** The example as the claim states it fails: the exported table of folder
    [A] has the three rows of its three files, [y.png] and [y.PNG] both. *)
Lemma example_folder_has_three_rows :
  sheets (execute_step sample_self "A" sample_world).1
    !! "Data Extracted Raw/A_raw_text_extracted.xlsx" =
    Some {| header := ["image_url"; "raw_text"];
            body := [ ["Data/lot/A/s1/x.jpg"; "card x"];
                      ["Data/lot/A/s1/y.png"; "card y"];
                      ["Data/lot/A/s2/y.PNG"; "card y"] ] |} ∧
  ¬ (∃ sheet,
       sheets (execute_step sample_self "A" sample_world).1
         !! "Data Extracted Raw/A_raw_text_extracted.xlsx" = Some sheet ∧
       length (body sheet) = 2).
Proof.
  assert (sheets (execute_step sample_self "A" sample_world).1
            !! "Data Extracted Raw/A_raw_text_extracted.xlsx" =
          Some {| header := ["image_url"; "raw_text"];
                  body := [ ["Data/lot/A/s1/x.jpg"; "card x"];
                            ["Data/lot/A/s1/y.png"; "card y"];
                            ["Data/lot/A/s2/y.PNG"; "card y"] ] |}) as H
    by (vm_compute; reflexivity).
  split; [done|]. intros (sheet & Hs & Hlen). rewrite H in Hs.
  injection Hs as <-. discriminate Hlen.
Qed.

(** ** A folder without records *)



(** ** Failure of one folder *)




(** ** Order of export and cleanup *)

Lemma export_before_cleanup_app self tr evs :
  export_before_cleanup self tr → export_before_cleanup self evs →
  export_before_cleanup self (tr ++ evs).
Proof.
  intros Htr Hevs i p Hi.
  destruct (decide (i < length tr)) as [Hlt|Hge].
  - rewrite lookup_app_l in Hi by done.
    destruct (Htr i p Hi) as (j & folder & -> & -> & Hj).
    exists j, folder. split_and!; [done..|].
    rewrite lookup_app_l by lia. done.
  - rewrite lookup_app_r in Hi by lia.
    destruct (Hevs _ p Hi) as (j & folder & Hij & -> & Hj).
    exists (length tr + j), folder. split_and!; [lia|done|].
    rewrite lookup_app_r by lia. by replace (length tr + j - length tr) with j by lia.
Qed.

Lemma export_before_cleanup_quiet self evs :
  (∀ p, RmtreeCalled p ∉ evs) → export_before_cleanup self evs.
Proof.
  intros Hq i p Hi. destruct (Hq p). by eapply list_elem_of_lookup_2.
Qed.

Lemma export_before_cleanup_pair self folder :
  export_before_cleanup self
    [Wrote (output_file_of self folder);
     RmtreeCalled (os_path_join (data_dir self) folder)].
Proof.
  intros [|[|i]] p Hi; [done| |done].
  injection Hi as <-. by exists 0, folder.
Qed.

Lemma prints_quiet self v p : RmtreeCalled p ∉ v ≫= print_of self.
Proof.
  intros ([p' n] & Hin & _)%list_elem_of_bind. unfold print_of in Hin.
  destruct (extract_text_from_image _ _ _); [|by apply elem_of_nil in Hin].
  by apply list_elem_of_singleton in Hin.
Qed.

Lemma subfolders_loop_quiet self fp subs dfs out p :
  RmtreeCalled p ∉ out →
  RmtreeCalled p ∉ (subfolders_loop self fp subs dfs out).1.
Proof.
  revert dfs out. induction subs as [|[s m] rest IH]; intros dfs out Hq; [done|].
  cbn [subfolders_loop]. destruct m as [? ? ?|[] files]; [by apply IH| |done].
  rewrite files_loop_spec. apply IH.
  rewrite elem_of_app. intros [?|?%prints_quiet]; done.
Qed.

Lemma process_folder_quiet self fp n p :
  RmtreeCalled p ∉ (process_folder self fp n).1.
Proof.
  destruct n as [? ? ?|[] subs]; [by intros ?%elem_of_nil| |by intros ?%elem_of_nil].
  unfold process_folder.
  pose proof (subfolders_loop_quiet self fp subs [] [] p) as H.
  destruct (subfolders_loop self fp subs [] []) as [out [e|[|df dfs]]];
    apply H; by intros ?%elem_of_nil.
Qed.

Lemma execute_step_trace self folder w :
  export_before_cleanup self (trace w) →
  export_before_cleanup self (trace (execute_step self folder w).1).
Proof.
  intros Hw. unfold execute_step.
  destruct (lookup_entry folder (data w)) as [[? ? ?|l es]|] eqn:Hlook; [done| |done].
  unfold try_except.
  destruct (folder_body _ _ _ _ _) as [w' r] eqn:Hb.
  apply folder_body_cases in Hb; [|done].
  set (pf := process_folder self (os_path_join (data_dir self) folder) (Dir l es)) in *.
  assert (export_before_cleanup self pf.1) as Hpf.
  { apply export_before_cleanup_quiet. intros p. apply process_folder_quiet. }
  clearbody pf.
  assert (∀ ev, (∀ p, ev ≠ RmtreeCalled p) → export_before_cleanup self [ev]) as Hone.
  { intros ev Hev. apply export_before_cleanup_quiet.
    intros p ?%list_elem_of_singleton. by eapply Hev. }
  assert (export_before_cleanup self (trace w ++ [PrintProcessingFolder folder])) as Hw1.
  { apply export_before_cleanup_app; [done|]. by apply Hone. }
  destruct Hb as [(e & _ & -> & ->)|[(df & e & _ & _ & -> & ->)|
                 [(df & n' & e & _ & _ & _ & -> & ->)|(df & _ & _ & _ & -> & ->)]]];
    cbn.
  - apply export_before_cleanup_app; [|by apply Hone].
    by apply export_before_cleanup_app.
  - apply export_before_cleanup_app; [|by apply Hone].
    by apply export_before_cleanup_app.
  - apply export_before_cleanup_app; [|by apply Hone].
    apply export_before_cleanup_app; [done|].
    apply export_before_cleanup_app; [done|]. apply export_before_cleanup_pair.
  - apply export_before_cleanup_app; [done|].
    apply export_before_cleanup_app; [done|]. apply export_before_cleanup_pair.
Qed.

Lemma execute_loop_trace self folders w :
  export_before_cleanup self (trace w) →
  export_before_cleanup self (trace (execute_loop self folders w)).
Proof.
  revert w. induction folders as [|folder rest IH]; intros w Hw; [done|].
  cbn [execute_loop]. by apply IH, execute_step_trace.
Qed.

(** C4, as the code has it: in a run of [execute] every cleanup call comes
    directly after the completed export write of the same folder; after a
    processing that succeeds the folder is no longer an entry of the data
    root; after a processing that fails in the walk or in the export the
    input tree is as it was. *)
Theorem cleanup_only_after_export self w :
  (export_before_cleanup self (trace w) →
   export_before_cleanup self (trace (execute self w))) ∧
  ∀ folder l es w' r,
    let fp := os_path_join (data_dir self) folder in
    let pf := process_folder self fp (Dir l es) in
    lookup_entry folder (data w) = Some (Dir l es) →
    folder_body self folder fp (Dir l es) (emit (PrintProcessingFolder folder) w)
      = (w', r) →
    (r = inr () → lookup_entry folder (data w') = None) ∧
    (∀ e, r = inl e →
          (∃ e', pf.2 = inl e') ∨ export_fails (output_file_of self folder) w →
          data w' = data w).
Proof.
  split; [apply execute_loop_trace|].
  intros folder l es w' r fp pf Hlook Hbody.
  apply folder_body_cases in Hbody; [|done]. fold fp pf in Hbody.
  destruct Hbody as [(e' & Hpf & -> & ->)|[(df & e' & Hpf & Hexp & -> & ->)|
                    [(df & n' & e' & Hpf & Hexp & Hrm & -> & ->)|
                     (df & Hpf & Hexp & Hrm & -> & ->)]]].
  - split; [done|]. done.
  - split; [done|]. done.
  - split; [done|]. intros e _ [[e'' Hwalk]|Hfail]; [congruence|by destruct Hexp].
  - split; [|done]. intros _. cbn. apply lookup_remove_entry.
Qed.

Lemma cleanup_only_after_export_witness :
  export_before_cleanup sample_self (trace (execute sample_self sample_world)) ∧
  lookup_entry "A"
    (data (folder_body sample_self "A" "Data/lot/A" (Dir true folder_A)
             (emit (PrintProcessingFolder "A") sample_world)).1) = None.
Proof.
  destruct (cleanup_only_after_export sample_self sample_world) as [Htrace Hfolder].
  split.
  - apply Htrace. intros i p Hi. by destruct i.
  - destruct (Hfolder "A" true folder_A
                (folder_body sample_self "A" "Data/lot/A" (Dir true folder_A)
                   (emit (PrintProcessingFolder "A") sample_world)).1
                (inr ()) eq_refl eq_refl) as [Hgone _].
    by apply Hgone.
Defined.

(** The claim as stated fails: the processing of folder [B] fails, in the
    cleanup, after [k.png] has been removed and before [l.png], so [B] does
    not remain untouched. *)
Lemma failed_folder_can_lose_files :
  let w1 := emit (PrintProcessingFolder "B") sample_world in
  (folder_body sample_self "B" "Data/lot/B" (Dir true folder_B) w1).2 =
    inl (PermissionError "Data/lot/B/s/l.png") ∧
  lookup_entry "B" (data sample_world) =
    Some (Dir true [ ("s", Dir true [ ("k.png", File true true "card k");
                                      ("l.png", File true false "card l") ]) ]) ∧
  lookup_entry "B" (data (execute_step sample_self "B" sample_world).1) =
    Some (Dir true [ ("s", Dir true [ ("l.png", File true false "card l") ]) ]).
Proof. split_and!; vm_compute; reflexivity. Qed.

(** * Further properties *)

Set Warnings "-clear-no-such-hyp".

(** ** More on de-duplication *)

Lemma drop_duplicates_urls seen df p :
  p ∈ image_url <$> drop_duplicates seen df ↔
  p ∈ image_url <$> df ∧ p ∉ seen.
Proof.
  revert seen. induction df as [|r rest IH]; intros seen; simpl.
  - split; [by intros ?%elem_of_nil|by intros [?%elem_of_nil _]].
  - case_bool_decide as Hseen.
    + rewrite IH, elem_of_cons. split; [naive_solver|].
      intros [[->|?] ?]; done.
    + rewrite fmap_cons, !elem_of_cons, IH, elem_of_union, elem_of_singleton.
      destruct (decide (p = image_url r)) as [->|Hne]; [tauto|].
      change (list_fmap ImageRecord string image_url rest)
        with (image_url <$> rest). tauto.
Qed.

Lemma drop_duplicates_filter seen df :
  drop_duplicates seen df =
    filter (λ r, image_url r ∉ seen) (drop_duplicates ∅ df).
Proof.
  assert (∀ seen0 seen1 l,
            drop_duplicates (seen1 ∪ seen0) l =
              filter (λ r, image_url r ∉ seen1) (drop_duplicates seen0 l)) as H.
  { intros seen0 seen1 l. revert seen0. unfold DataFrame.
    induction l as [|r rest IH]; intros seen0; simpl; [done|].
    case_bool_decide as H1; case_bool_decide as H0.
    - apply IH.
    - apply elem_of_union in H1 as [H1|?]; [|done].
      rewrite filter_cons. case_decide as Hd; [done|].
      rewrite <- IH. f_equal.
      apply set_eq. intros x. rewrite !elem_of_union, elem_of_singleton.
      naive_solver.
    - destruct H1. apply elem_of_union. by right.
    - rewrite filter_cons. case_decide as Hd.
      + f_equal. rewrite <- IH. f_equal.
        apply set_eq. intros x. rewrite !elem_of_union, elem_of_singleton.
        naive_solver.
      + destruct H1. apply elem_of_union. left.
        by destruct (decide (image_url r ∈ seen1)). }
  rewrite <- (H ∅ seen df). f_equal. apply set_eq. intros x.
  rewrite elem_of_union. split; [by left|]. by intros [?|?%elem_of_empty].
Qed.

Lemma drop_duplicates_app seen a b :
  drop_duplicates seen (a ++ b) =
    drop_duplicates seen a ++
    drop_duplicates (list_to_set (image_url <$> a) ∪ seen) b.
Proof.
  revert seen. induction a as [|r rest IH]; intros seen; simpl.
  - f_equal. apply set_eq. intros x. rewrite elem_of_union.
    split; [by right|]. by intros [?%elem_of_empty|?].
  - case_bool_decide as Hseen.
    + rewrite IH. f_equal. f_equal. apply set_eq. intros x.
      rewrite !elem_of_union, elem_of_singleton. naive_solver.
    + rewrite IH. simpl. f_equal. f_equal. f_equal. apply set_eq. intros x.
      rewrite !elem_of_union, elem_of_singleton. naive_solver.
Qed.

(** X1: [clean_duplicates] loses no image path: a path has a row in the
    output exactly when it has one in the input. *)
Theorem clean_duplicates_keeps_every_path (df : DataFrame) (p : string) :
  p ∈ image_url <$> clean_duplicates df ↔ p ∈ image_url <$> df.
Proof.
  unfold clean_duplicates. rewrite drop_duplicates_urls.
  split; [by intros [? _]|]. intros ?. split; [done|]. apply not_elem_of_empty.
Qed.

(** X2: the tables that [clean_duplicates] leaves unchanged are exactly the
    tables whose [image_url] values are pairwise distinct. *)
Theorem clean_duplicates_fixed_iff (df : DataFrame) :
  clean_duplicates df = df ↔ NoDup (image_url <$> df).
Proof.
  split; [|apply clean_duplicates_fixed].
  intros <-. apply drop_duplicates_NoDup.
Qed.

(** X3: cleaning a concatenation: the rows of the first table are cleaned as
    on their own, and of the second table exactly those cleaned rows survive
    whose path does not occur in the first table. *)
Theorem clean_duplicates_app (a b : DataFrame) :
  clean_duplicates (a ++ b) =
    clean_duplicates a ++
    filter (λ r, image_url r ∉ image_url <$> a) (clean_duplicates b).
Proof.
  unfold clean_duplicates. rewrite drop_duplicates_app. f_equal.
  rewrite drop_duplicates_filter. apply list_filter_iff. intros r.
  rewrite elem_of_union, elem_of_list_to_set.
  split; [naive_solver|]. intros H [?|?%elem_of_empty]; done.
Qed.

(** X4: the cleaned table has as many rows as the input has distinct image
    paths, hence never more rows than the input. *)
Theorem clean_duplicates_length (df : DataFrame) :
  length (clean_duplicates df) =
    size (list_to_set (image_url <$> df) : gset string) ∧
  length (clean_duplicates df) ≤ length df.
Proof.
  split; [|apply sublist_length, drop_duplicates_sublist].
  rewrite <- (length_fmap image_url (clean_duplicates df)).
  rewrite <- (size_list_to_set (C:=gset string)) by apply drop_duplicates_NoDup.
  f_equal. apply set_eq. intros p. rewrite !elem_of_list_to_set.
  unfold clean_duplicates. rewrite drop_duplicates_urls.
  split; [by intros [? _]|]. intros ?. split; [done|]. apply not_elem_of_empty.
Qed.

(** ** The file-name test *)

Lemma endswith_complete pre suffix : endswith (pre +:+ suffix) suffix = true.
Proof.
  induction pre as [|c pre IH].
  - rewrite append_nil_l. destruct suffix; simpl; try case_bool_decide; done.
  - rewrite append_cons. simpl. by case_bool_decide.
Qed.

(** X5: a file name passes the test of [process_folder] exactly when, put in
    lower case, it is some stem (possibly empty) followed by a dot and one of
    png, jpg, jpeg, bmp, gif. *)
Theorem qualifies_iff (file_name : string) :
  qualifies file_name = true ↔
  ∃ stem ext, ext ∈ ["png"; "jpg"; "jpeg"; "bmp"; "gif"] ∧
              lower file_name = stem +:+ "." +:+ ext.
Proof.
  split; [apply qualifies_spec|].
  intros (stem & ext & Hext & Heq).
  unfold qualifies, endswith_any, image_suffixes. rewrite Heq. cbn [existsb].
  rewrite !orb_true_iff.
  repeat (apply elem_of_cons in Hext as [->|Hext]);
    [| | | | |by apply elem_of_nil in Hext].
  - left. apply (endswith_complete stem ".png").
  - right. left. apply (endswith_complete stem ".jpg").
  - do 2 right. left. apply (endswith_complete stem ".jpeg").
  - do 3 right. left. apply (endswith_complete stem ".bmp").
  - do 4 right. left. apply (endswith_complete stem ".gif").
Qed.

(** ** More on the walk *)

Lemma subfolders_loop_app self fp pre rest dfs out :
  all_listable pre = true →
  subfolders_loop self fp (pre ++ rest) dfs out =
    subfolders_loop self fp rest
      (dfs ++ ((λ r, [r]) <$> (visited fp pre ≫= row_of self)))
      (out ++ (visited fp pre ≫= print_of self)).
Proof.
  revert dfs out. induction pre as [|[s n] pre IH]; intros dfs out Hl.
  - simpl. by rewrite !app_nil_r.
  - simpl in Hl. apply andb_true_iff in Hl as [Hn Hl].
    rewrite <- app_comm_cons. cbn [subfolders_loop].
    rewrite visited_cons. destruct n as [? ? ?|listable files].
    + rewrite app_nil_l. by apply IH.
    + simpl in Hn. rewrite Hn, files_loop_spec, IH by done.
      by rewrite !bind_app, fmap_app, <- !app_assoc.
Qed.

Lemma all_listable_split subs :
  all_listable subs = false →
  ∃ pre s files post,
    subs = pre ++ (s, Dir false files) :: post ∧ all_listable pre = true.
Proof.
  induction subs as [|[s n] rest IH]; [done|]. simpl.
  destruct n as [? ? ?|[] files]; simpl.
  - intros (pre & s' & files & post & -> & Hpre)%IH.
    by exists ((s, File readable removable content) :: pre), s', files, post.
  - intros (pre & s' & files' & post & -> & Hpre)%IH.
    by exists ((s, Dir true files) :: pre), s', files', post.
  - intros _. by exists [], s, files, rest.
Qed.

(** X6: the walk is all or nothing.  When the subfolder [s] is the first one
    that cannot be listed, [process_folder] raises [PermissionError] for the
    path of [s]: the errors of the images before [s] have been printed, the
    rows extracted so far are dropped, and nothing after [s] is visited. *)
Theorem process_folder_unlistable_subfolder self folder_path pre s files post :
  all_listable pre = true →
  process_folder self folder_path (Dir true (pre ++ (s, Dir false files) :: post)) =
    (visited folder_path pre ≫= print_of self,
     inl (PermissionError (os_path_join folder_path s))).
Proof.
  intros Hpre. unfold process_folder.
  rewrite subfolders_loop_app by done. cbn [subfolders_loop]. done.
Qed.

Lemma process_folder_unlistable_subfolder_witness :
  process_folder sample_self "Data/lot/F"
    (Dir true [ ("good", Dir true [ ("a.png", File true true "alice");
                                    ("b.png", File true true "bad") ]);
                ("locked", Dir false [ ("c.png", File true true "carol") ]);
                ("late", Dir true [ ("d.png", File true true "bad") ]) ]) =
    ([PrintErrorImage "Data/lot/F/good/b.png" (ServiceError "503 unavailable")],
     inl (PermissionError "Data/lot/F/locked")).
Proof.
  apply (process_folder_unlistable_subfolder sample_self "Data/lot/F"
           [ ("good", Dir true [ ("a.png", File true true "alice");
                                 ("b.png", File true true "bad") ]) ]
           "locked" [ ("c.png", File true true "carol") ]
           [ ("late", Dir true [ ("d.png", File true true "bad") ]) ]).
  reflexivity.
Defined.


(** X8: in a walk that completes, every entry that passes the file-name test
    in a subdirectory accounts for exactly one row or exactly one printed
    error, and the rows come in visiting order. *)
Theorem process_folder_accounts_for_every_image self folder_path listable
    subfolders out df :
  process_folder self folder_path (Dir listable subfolders) = (out, inr df) →
  length df + length out = length (visited folder_path subfolders) ∧
  image_url <$> df `sublist_of` (visited folder_path subfolders).*1.
Proof.
  intros (subs & [= -> ->] & Hl & -> & ->)%process_folder_inr.
  split; [apply rows_prints_length|apply rows_urls_sublist].
Qed.

Lemma process_folder_accounts_for_every_image_witness :
  length [ {| image_url := "Data/lot/E/cards/a.png"; raw_text := "alice" |};
           {| image_url := "Data/lot/E/cards/e.jpeg"; raw_text := "" |} ] +
  length (process_folder sample_self "Data/lot/E" (Dir true folder_E)).1 =
  length (visited "Data/lot/E" folder_E).
Proof.
  apply (process_folder_accounts_for_every_image sample_self "Data/lot/E" true
           folder_E). reflexivity.
Defined.

(** ** The cleanup *)






(** ** The export *)


Lemma no_sep_app a b : no_sep (a +:+ b) = no_sep a && no_sep b.
Proof.
  induction a as [|c a IH]; [done|].
  rewrite append_cons. simpl. rewrite IH. by rewrite andb_assoc.
Qed.

Lemma head_of_path_empty_iff p : head_of_path p = "" ↔ no_sep p = true.
Proof.
  induction p as [|c p IH]; [done|]. simpl.
  case_bool_decide as Hh.
  - apply IH in Hh. rewrite Hh, andb_true_r.
    case_bool_decide; simpl; split; done.
  - split; [done|]. intros [_ Hp%IH]%andb_true_iff. done.
Qed.

Lemma rstrip_sep_empty s : rstrip_sep s = "" → only_seps s = true.
Proof.
  induction s as [|c s IH]; [done|]. simpl.
  case_bool_decide as Hr; [|done]. case_bool_decide as Hc; [|done].
  intros _. simpl. by apply IH.
Qed.

Lemma os_path_dirname_empty_iff p : os_path_dirname p = "" ↔ no_sep p = true.
Proof.
  rewrite <- head_of_path_empty_iff. unfold os_path_dirname.
  case_bool_decide as Hh; [done|]. cbn [negb andb].
  destruct (only_seps (head_of_path p)) eqn:Ho; [done|]. cbn [negb].
  split; [|done]. intros Hr%rstrip_sep_empty. congruence.
Qed.

Lemma dir_prefix_no_sep a : no_sep (dir_prefix a) = true ↔ a = "".
Proof.
  unfold dir_prefix. case_bool_decide as Ha; [by subst|]. cbn [orb].
  split; [|done].
  destruct (endswith a sep) eqn:He.
  - apply endswith_spec in He as [pre ->]. rewrite no_sep_app.
    by intros [_ ?]%andb_true_iff.
  - rewrite no_sep_app. by intros [_ ?]%andb_true_iff.
Qed.

(** X12: for a folder name without separator, the directory part of the
    output file is empty, so that [os.makedirs] raises, exactly when
    [output_dir] is the empty string. *)
Theorem export_dirname_empty_iff self folder :
  no_sep folder = true →
  os_path_dirname (output_file_of self folder) = "" ↔ output_dir self = "".
Proof.
  intros Hf. rewrite os_path_dirname_empty_iff. unfold output_file_of.
  assert (no_sep (folder +:+ "_raw_text_extracted.xlsx") = true) as Hname.
  { rewrite no_sep_app, Hf. done. }
  rewrite join_no_sep, no_sep_app, Hname, andb_true_r by done.
  apply dir_prefix_no_sep.
Qed.

Lemma export_dirname_empty_iff_witness :
  os_path_dirname
    (output_file_of {| data_dir := "Data/lot/"; output_dir := "";
                       client_text_detection := sample_client |} "A") = "".
Proof.
  apply (export_dirname_empty_iff
           {| data_dir := "Data/lot/"; output_dir := "";
              client_text_detection := sample_client |} "A");
    reflexivity.
Defined.

(** ** Whole runs *)

Lemma lookup_replace_entry_ne k k' n es :
  k ≠ k' → lookup_entry k' (replace_entry k n es) = lookup_entry k' es.
Proof.
  intros Hne. induction es as [|[k0 m] rest IH]; [done|]. simpl.
  case_bool_decide as H0; simpl.
  - subst. by rewrite !bool_decide_eq_false_2.
  - case_bool_decide; [done|]. apply IH.
Qed.

Lemma lookup_remove_entry_ne k k' es :
  k ≠ k' → lookup_entry k' (remove_entry k es) = lookup_entry k' es.
Proof.
  intros Hne. induction es as [|[k0 m] rest IH]; [done|]. simpl.
  case_bool_decide as H0; simpl.
  - subst. by rewrite bool_decide_eq_false_2.
  - case_bool_decide; [done|]. apply IH.
Qed.

(** The four outcomes of one iteration of [execute]. *)
Lemma execute_step_cases self folder w :
  let w' := (execute_step self folder w).1 in
  let output_file := output_file_of self folder in
  (∃ evs, trace w' = trace w ++ evs) ∧
  ((w' = w ∧ ∀ l es, lookup_entry folder (data w) ≠ Some (Dir l es))
   ∨ (∃ l es e,
        lookup_entry folder (data w) = Some (Dir l es) ∧
        data w' = data w ∧ sheets w' = sheets w ∧
        PrintErrorFolder folder e ∈ trace w' ∧
        ((process_folder self (os_path_join (data_dir self) folder) (Dir l es)).2 = inl e
         ∨ export_fails output_file w))
   ∨ (∃ l es df l' es' e,
        lookup_entry folder (data w) = Some (Dir l es) ∧
        ¬ export_fails output_file w ∧
        data w' = replace_entry folder (Dir l' es') (data w) ∧
        sheets w' = <[output_file := to_excel (clean_duplicates df)]> (sheets w) ∧
        PrintErrorFolder folder e ∈ trace w')
   ∨ (∃ l es df,
        lookup_entry folder (data w) = Some (Dir l es) ∧
        ¬ export_fails output_file w ∧
        data w' = remove_entry folder (data w) ∧
        sheets w' = <[output_file := to_excel (clean_duplicates df)]> (sheets w) ∧
        Wrote output_file ∈ trace w')).
Proof.
  intros w' output_file. subst w'.
  destruct (lookup_entry folder (data w)) as [[? ? ?|l es]|] eqn:Hlook.
  1,3: rewrite execute_step_skip by (intros ? ?; congruence);
       split; [exists []; by rewrite app_nil_r|left; split; [done|congruence]].
  rewrite (execute_step_dir _ _ l es) by done. unfold try_except.
  destruct (folder_body _ _ _ _ _) as [w1 r] eqn:Hb.
  apply folder_body_cases in Hb; [|done].
  remember (process_folder self (os_path_join (data_dir self) folder) (Dir l es))
    as pf eqn:Epf.
  destruct Hb as [(e & Hpf & -> & ->)|[(df & e & Hpf & Hexp & -> & ->)|
                 [(df & n' & e & Hpf & Hexp & Hrm & -> & ->)|
                  (df & Hpf & Hexp & Hrm & -> & ->)]]]; cbn [fst].
  - split; [eexists; cbn; by rewrite <- !app_assoc|].
    right. left. exists l, es, e.
    split_and!; [done..| |left; by rewrite <- Epf].
    cbn. apply elem_of_app. right. by apply list_elem_of_singleton.
  - split; [eexists; cbn; by rewrite <- !app_assoc|].
    right. left. exists l, es, e. split_and!; [done..| |by right].
    cbn. apply elem_of_app. right. by apply list_elem_of_singleton.
  - split; [eexists; cbn; by rewrite <- !app_assoc|].
    apply remove_node_dir in Hrm as (l' & es' & ->).
    right. right. left. exists l, es, df, l', es', e. split_and!; [done..|].
    cbn. apply elem_of_app. right. by apply list_elem_of_singleton.
  - split; [eexists; cbn; by rewrite <- !app_assoc|].
    right. right. right. exists l, es, df. split_and!; [done..|].
    cbn. rewrite !elem_of_app. right. right. left.
Qed.


Lemma execute_step_other_entry self folder w k :
  k ≠ folder →
  lookup_entry k (data (execute_step self folder w).1) = lookup_entry k (data w).
Proof.
  intros Hne.
  destruct (execute_step_cases self folder w) as [_ [[-> _]|[H|[H|H]]]]; [done|..].
  - destruct H as (l & es & e & _ & -> & _). done.
  - destruct H as (l & es & df & l' & es' & e & _ & _ & -> & _).
    by apply lookup_replace_entry_ne.
  - destruct H as (l & es & df & _ & _ & -> & _).
    by apply lookup_remove_entry_ne.
Qed.












Lemma execute_step_dir_origin self folder w k l es :
  lookup_entry k (data (execute_step self folder w).1) = Some (Dir l es) →
  ∃ l0 es0, lookup_entry k (data w) = Some (Dir l0 es0).
Proof.
  destruct (decide (k = folder)) as [->|Hne];
    [|rewrite execute_step_other_entry by done; eauto].
  destruct (execute_step_cases self folder w) as [_ [[-> _]|[H|[H|H]]]]; [eauto|..].
  - destruct H as (l0 & es0 & e & ? & -> & _). eauto.
  - destruct H as (l0 & es0 & df & l' & es' & e & ? & _). eauto.
  - destruct H as (l0 & es0 & df & _ & _ & -> & _).
    by rewrite lookup_remove_entry.
Qed.

Lemma execute_loop_other_sheets self folders w f :
  (∀ folder l es, lookup_entry folder (data w) = Some (Dir l es) →
                  f ≠ output_file_of self folder) →
  sheets (execute_loop self folders w) !! f = sheets w !! f.
Proof.
  revert w. induction folders as [|folder rest IH]; intros w Hf; [done|].
  cbn [execute_loop]. rewrite IH.
  - destruct (execute_step_cases self folder w) as [_ [[-> _]|[H|[H|H]]]]; [done|..].
    + destruct H as (l & es & e & _ & _ & -> & _). done.
    + destruct H as (l & es & df & l' & es' & e & Hl & _ & _ & -> & _).
      rewrite lookup_insert_ne; [done|]. intros ?. by eapply Hf.
    + destruct H as (l & es & df & Hl & _ & _ & -> & _).
      rewrite lookup_insert_ne; [done|]. intros ?. by eapply Hf.
  - intros k l es (l0 & es0 & Hk)%execute_step_dir_origin. by eapply Hf.
Qed.

(** X16: a run of [execute] writes only output files of top-level
    directories: a spreadsheet path that is the output file of no directory
    of the data root is, after the run, as it was before. *)
Theorem execute_writes_only_folder_sheets self w f :
  (∀ folder l es, lookup_entry folder (data w) = Some (Dir l es) →
                  f ≠ output_file_of self folder) →
  sheets (execute self w) !! f = sheets w !! f.
Proof. apply execute_loop_other_sheets. Qed.

Lemma execute_writes_only_folder_sheets_witness :
  sheets (execute sample_self sample_world)
    !! "Data Extracted Raw/index.txt_raw_text_extracted.xlsx" = None.
Proof.
  rewrite (execute_writes_only_folder_sheets sample_self sample_world); [done|].
  intros folder l es Hlook. cbn in Hlook.
  repeat (case_bool_decide; [subst; by vm_compute|]); done.
Defined.

Lemma output_file_no_dir self folder w :
  output_dir self = "" → no_sep folder = true →
  export_fails (output_file_of self folder) w.
Proof.
  intros Hod Hf. left. apply os_path_dirname_empty_iff. unfold output_file_of.
  assert (no_sep (folder +:+ "_raw_text_extracted.xlsx") = true) as Hname.
  { rewrite no_sep_app, Hf. done. }
  rewrite join_no_sep, no_sep_app, Hname, andb_true_r by done.
  apply dir_prefix_no_sep. done.
Qed.

Lemma execute_loop_no_output_dir self folders w :
  output_dir self = "" → Forall (λ k, no_sep k = true) folders →
  data (execute_loop self folders w) = data w ∧
  sheets (execute_loop self folders w) = sheets w.
Proof.
  intros Hod. revert w. induction folders as [|folder rest IH]; intros w Hall; [done|].
  apply Forall_cons in Hall as [Hf Hall].
  cbn [execute_loop]. destruct (IH (execute_step self folder w).1 Hall) as [-> ->].
  pose proof (output_file_no_dir self folder w Hod Hf) as Hfail.
  destruct (execute_step_cases self folder w) as [_ [[-> _]|[H|[H|H]]]]; [done|..].
  - destruct H as (l & es & e & _ & -> & -> & _). done.
  - destruct H as (l & es & df & l' & es' & e & _ & Hno & _). by destruct Hno.
  - destruct H as (l & es & df & _ & Hno & _). by destruct Hno.
Qed.

(** X17: with an empty [output_dir] every export raises, so a run of
    [execute] over a data root with proper entry names deletes nothing and
    writes nothing. *)
Theorem execute_with_empty_output_dir self w :
  output_dir self = "" →
  Forall (λ k, no_sep k = true) (data w).*1 →
  data (execute self w) = data w ∧ sheets (execute self w) = sheets w.
Proof. intros. by apply execute_loop_no_output_dir. Qed.

Lemma execute_with_empty_output_dir_witness :
  data (execute {| data_dir := "Data/lot/"; output_dir := "";
                   client_text_detection := sample_client |} sample_world) =
    data sample_world.
Proof.
  apply (execute_with_empty_output_dir
           {| data_dir := "Data/lot/"; output_dir := "";
              client_text_detection := sample_client |} sample_world);
    [reflexivity|].
  repeat constructor.
Defined.

(** X18: a data root without any directory is left alone: [execute] prints
    nothing, writes nothing and deletes nothing. *)
Theorem execute_without_folders self w :
  (∀ k l es, lookup_entry k (data w) ≠ Some (Dir l es)) →
  execute self w = w.
Proof.
  unfold execute. generalize (data w).*1. intros folders Hno.
  induction folders as [|folder rest IH]; [done|].
  cbn [execute_loop]. by rewrite execute_step_skip.
Qed.

Lemma execute_without_folders_witness :
  execute sample_self
    {| data := [ ("index.txt", File true true ""); ("logo.png", File true true "") ];
       sheets := ∅; write_protected := ∅; trace := [] |} =
    {| data := [ ("index.txt", File true true ""); ("logo.png", File true true "") ];
       sheets := ∅; write_protected := ∅; trace := [] |}.
Proof.
  apply (execute_without_folders sample_self).
  intros k l es. cbn. repeat case_bool_decide; done.
Defined.

(** ** Listing order *)

Lemma all_listable_Permutation subs subs' :
  subs ≡ₚ subs' → all_listable subs = all_listable subs'.
Proof.
  unfold all_listable. induction 1 as [|e l1 l2 _ IH|e1 e2 l|l1 l2 l3 _ IH1 _ IH2]; simpl.
  - done.
  - by rewrite IH.
  - by rewrite !andb_assoc, (andb_comm (match e2.2 with Dir l0 _ => l0 | _ => true end)).
  - by rewrite IH1.
Qed.

(** X19: the order in which [os.listdir] returns the subfolders changes only
    the order of the result: when the walk completes for one listing order it
    completes for every other, with the same rows and the same printed errors
    up to order. *)
Theorem process_folder_listing_order self folder_path subfolders subfolders' out df :
  subfolders ≡ₚ subfolders' →
  process_folder self folder_path (Dir true subfolders) = (out, inr df) →
  ∃ out' df',
    process_folder self folder_path (Dir true subfolders') = (out', inr df') ∧
    df ≡ₚ df' ∧ out ≡ₚ out'.
Proof.
  intros Hperm (subs & [= <-] & Hl & -> & ->)%process_folder_inr.
  rewrite (all_listable_Permutation _ _ Hperm) in Hl.
  rewrite process_folder_listable by done.
  eexists _, _. split; [done|].
  unfold visited. by rewrite Hperm.
Qed.

Lemma process_folder_listing_order_witness :
  ∃ out' df',
    process_folder sample_self "Data/lot/A" (Dir true (reverse folder_A)) =
      (out', inr df') ∧
    [ {| image_url := "Data/lot/A/s1/x.jpg"; raw_text := "card x" |};
      {| image_url := "Data/lot/A/s1/y.png"; raw_text := "card y" |};
      {| image_url := "Data/lot/A/s2/y.PNG"; raw_text := "card y" |} ] ≡ₚ df' ∧
    [] ≡ₚ out'.
Proof.
  apply (process_folder_listing_order sample_self "Data/lot/A" folder_A).
  - symmetry. apply reverse_Permutation.
  - reflexivity.
Defined.

(** ** The shape of the paths *)

(** X20: over proper listings, the [image_url] of every row is the folder
    path, a separator unless the folder path is empty or ends with one, the
    name of a subfolder, a separator and the name of a file of that
    subfolder. *)
Theorem process_folder_url_shape self folder_path listable subfolders out df r :
  folder_ok subfolders = true →
  process_folder self folder_path (Dir listable subfolders) = (out, inr df) →
  r ∈ df →
  ∃ subfolder l files file_name n,
    (subfolder, Dir l files) ∈ subfolders ∧ (file_name, n) ∈ files ∧
    image_url r = dir_prefix folder_path +:+ subfolder +:+ "/" +:+ file_name.
Proof.
  intros Hok (subs & [= -> ->] & Hl & -> & ->)%process_folder_inr
         (n & Hv & _)%elem_of_rows.
  apply elem_of_visited in Hv as (s & l & files & f & Hs & Hf & _ & ->).
  destruct (folder_ok_elem subs s l files) as [Hvs Hfiles]; [done..|].
  exists s, l, files, f, n. split_and!; [done..|].
  apply join_join_valid; [done|]. by eapply listing_ok_valid.
Qed.

Lemma process_folder_url_shape_witness :
  ∃ subfolder l files file_name n,
    (subfolder, Dir l files) ∈ folder_A ∧ (file_name, n) ∈ files ∧
    "Data/lot/A/s2/y.PNG" = dir_prefix "Data/lot/A" +:+ subfolder +:+ "/" +:+ file_name.
Proof.
  apply (process_folder_url_shape sample_self "Data/lot/A" true folder_A []
           [ {| image_url := "Data/lot/A/s1/x.jpg"; raw_text := "card x" |};
             {| image_url := "Data/lot/A/s1/y.png"; raw_text := "card y" |};
             {| image_url := "Data/lot/A/s2/y.PNG"; raw_text := "card y" |} ]
           {| image_url := "Data/lot/A/s2/y.PNG"; raw_text := "card y" |});
    [reflexivity..|].
  do 2 right. left.
Defined.


